(** * Optimistic move synchronisation of web/script.js

    The script keeps one global, [prev], and installs two handlers on a
    chessboard widget: [onDragStart] stores the widget's position in [prev],
    [onDrop] posts the move to the server and registers a continuation that
    puts the widget back on [prev] unless the answer is "valid".

    The widget ([board1]), the transport ([$.post]) and the console are
    collaborators of the script: they are modelled by the state they keep and
    by a log of the calls the script makes on them. *)

From Stdlib Require Import Ascii.
From stdpp Require Import base strings list gmap.

Open Scope string_scope.
Open Scope list_scope.

(** ** JavaScript values *)

(** A position object of the widget: square name to piece code. *)
Abbreviation Position := (gmap string string).

(** The values the script handles.  Numbers are never inspected by the
    script, an integer payload stands for them.  [JSPositionObj] is a position
    object as [board1.position()] returns it; [JSObject] is any other object,
    given by the string its default conversion to a primitive yields (for an
    array, its elements joined by commas). *)
Inductive JSValue : Type :=
  | JSUndefined
  | JSNull
  | JSBoolean (b : bool)
  | JSNumber (n : Z)
  | JSString (s : string)
  | JSPositionObj (p : Position)
  | JSObject (to_primitive : string).

(** [v == "valid"], the abstract equality of JavaScript against the string
    literal of the script.  undefined and null equal only each other; a
    boolean or a number is compared with the number the literal converts to,
    which is NaN and equals nothing; a string is compared character by
    character; an object is first converted to a primitive, a plain object
    such as a position giving "[object Object]". *)
Definition loose_eq_valid (v : JSValue) : bool :=
  match v with
  | JSUndefined | JSNull => false
  | JSBoolean _ | JSNumber _ => false
  | JSString s => String.eqb s "valid"
  | JSPositionObj _ => String.eqb "[object Object]" "valid"
  | JSObject prim => String.eqb prim "valid"
  end.

(** [v != "valid"], the test of the continuation. *)
Definition loose_neq_valid (v : JSValue) : bool := negb (loose_eq_valid v).

(** ** The collaborators *)

(** The function value created by [onDrop]: a closure over the six
    parameters of the call that created it. *)
Record Closure : Type := {
  env_source : string;
  env_target : string;
  env_piece : string;
  env_newPos : Position;
  env_oldPos : Position;
  env_orientation : string
}.

Inductive Method : Type := GET | POST.

(** A request handed to the transport.  [req_data] is the payload argument
    of [$.post], absent when the second argument is the success function. *)
Record Request : Type := {
  req_method : Method;
  req_url : string;
  req_data : option JSValue;
  req_success : Closure
}.

(** The calls the script makes on its collaborators. *)
Inductive Call : Type :=
  | CallPost (r : Request)
  | CallPositionGet
  | CallPositionSet (v : JSValue) (useAnimation : bool)
  | CallConsoleLog (v : JSValue).

(** The widget object: the position it displays. *)
Record ChessBoard : Type := { currentPosition : Position }.

(** The globals of the script and the state of its collaborators.
    [prev] is [var prev]; [callback] is the global that the assignment
    inside [onDrop] creates; [pending] holds the requests that have no
    response yet, oldest first; [calls] logs the collaborator calls, oldest
    first. *)
Record World : Type := {
  prev : JSValue;
  callback : option Closure;
  board1 : ChessBoard;
  pending : list Request;
  calls : list Call
}.

Definition set_prev (v : JSValue) (w : World) : World :=
  {| prev := v; callback := callback w; board1 := board1 w;
     pending := pending w; calls := calls w |}.

Definition set_callback (c : Closure) (w : World) : World :=
  {| prev := prev w; callback := Some c; board1 := board1 w;
     pending := pending w; calls := calls w |}.

Definition set_board1 (b : ChessBoard) (w : World) : World :=
  {| prev := prev w; callback := callback w; board1 := b;
     pending := pending w; calls := calls w |}.

Definition set_pending (l : list Request) (w : World) : World :=
  {| prev := prev w; callback := callback w; board1 := board1 w;
     pending := l; calls := calls w |}.

Definition log_call (c : Call) (w : World) : World :=
  {| prev := prev w; callback := callback w; board1 := board1 w;
     pending := pending w; calls := calls w ++ [c] |}.

(** The starting position, the one the configuration key
    [position: 'start'] asks the widget for. *)
Definition start_position : Position :=
  list_to_map
    [ ("a1", "wR"); ("b1", "wN"); ("c1", "wB"); ("d1", "wQ");
      ("e1", "wK"); ("f1", "wB"); ("g1", "wN"); ("h1", "wR");
      ("a2", "wP"); ("b2", "wP"); ("c2", "wP"); ("d2", "wP");
      ("e2", "wP"); ("f2", "wP"); ("g2", "wP"); ("h2", "wP");
      ("a7", "bP"); ("b7", "bP"); ("c7", "bP"); ("d7", "bP");
      ("e7", "bP"); ("f7", "bP"); ("g7", "bP"); ("h7", "bP");
      ("a8", "bR"); ("b8", "bN"); ("c8", "bB"); ("d8", "bQ");
      ("e8", "bK"); ("f8", "bB"); ("g8", "bN"); ("h8", "bR") ].

(** The world once the script has been loaded: [prev] is declared and not
    assigned, no drop has happened, the board shows the start position. *)
Definition init : World :=
  {| prev := JSUndefined; callback := None;
     board1 := {| currentPosition := start_position |};
     pending := []; calls := [] |}.

(** What the environment does: the widget starts a drag, the widget reports
    a drop, the transport completes the [i]-th outstanding request with a
    body and a status. *)
Inductive Event : Type :=
  | DragStart
  | Drop (source target piece : string) (newPos oldPos : Position)
         (orientation : string)
  | Response (i : nat) (data status : JSValue).

Definition is_DragStart (e : Event) : bool :=
  match e with DragStart => true | _ => false end.

Definition is_Drop (e : Event) : bool :=
  match e with Drop _ _ _ _ _ _ => true | _ => false end.

Definition is_Response (e : Event) : bool :=
  match e with Response _ _ _ => true | _ => false end.

(** ** Calls on the collaborators *)

(** [board1.position()]: the current position, as an object. *)
Definition board1_position_get (w : World) : JSValue * World :=
  (JSPositionObj (currentPosition (board1 w)), log_call CallPositionGet w).

(** [$.post(url, success)]: a POST of [url] with no payload is handed to the
    transport, [success] waits for the response. *)
Definition post (url : string) (success : Closure) (w : World) : World :=
  let r := {| req_method := POST; req_url := url; req_data := None;
              req_success := success |} in
  set_pending (pending w ++ [r]) (log_call (CallPost r) w).

(** [console.log(v)]. *)
Definition console_log (v : JSValue) (w : World) : World :=
  log_call (CallConsoleLog v) w.

(** ** The handlers of the script *)

(** [onDrop]. *)
Definition onDrop (source target piece : string) (newPos oldPos : Position)
    (orientation : string) (w : World) : World :=
  let c := {| env_source := source; env_target := target;
              env_piece := piece; env_newPos := newPos;
              env_oldPos := oldPos; env_orientation := orientation |} in
  post ("move/" +:+ source +:+ "/" +:+ target) c (set_callback c w).

(** [onDragStart]. *)
Definition onDragStart (w : World) : World :=
  let '(p, w1) := board1_position_get w in
  let w2 := set_prev p w1 in
  console_log (prev w2) w2.

(** No drag start among the events. *)
Definition no_drag_start (es : list Event) : bool :=
  forallb (fun e => negb (is_DragStart e)) es.

(** An event that leaves the displayed position alone: a drag start, or a
    response whose body passes the test of the continuation. *)
Definition board_quiet_event (e : Event) : bool :=
  match e with
  | DragStart => true
  | Drop _ _ _ _ _ _ => false
  | Response _ data _ => loose_eq_valid data
  end.

Definition board_quiet (es : list Event) : bool :=
  forallb board_quiet_event es.

Fixpoint count_events (f : Event -> bool) (es : list Event) : nat :=
  match es with
  | [] => 0
  | e :: es' => (if f e then 1 else 0) + count_events f es'
  end.

(** ** What an observer of the script can tell

    The closure a request carries holds the six arguments of the drop that
    made it.  [erase] forgets what the closures captured and keeps everything
    else: the globals, the board, and the method, path and payload of every
    request. *)
Definition blank_closure : Closure :=
  {| env_source := ""; env_target := ""; env_piece := "";
     env_newPos := ∅; env_oldPos := ∅; env_orientation := "" |}.

Definition erase_request (r : Request) : Request :=
  {| req_method := req_method r; req_url := req_url r;
     req_data := req_data r; req_success := blank_closure |}.

Definition erase_call (c : Call) : Call :=
  match c with
  | CallPost r => CallPost (erase_request r)
  | _ => c
  end.

Definition erase (w : World) : World :=
  {| prev := prev w;
     callback := option_map (fun _ => blank_closure) (callback w);
     board1 := board1 w;
     pending := erase_request <$> pending w;
     calls := erase_call <$> calls w |}.

(** ** The verdict, in the words of the specification *)

Inductive Verdict : Type := Accepted | Rejected.

(** The wire contract of the specification: the body "valid" is an
    acceptance, any other body is a rejection. *)
Definition spec_verdict (body : string) : Verdict :=
  if decide (body = "valid") then Accepted else Rejected.

(** ** Sample data *)

(** A widget that keeps its position when it is given something that is not
    a position object. *)
Definition keep_position (v : JSValue) (p : Position) : Position := p.

(** The start position after the pawn move e2 to e4, and after the further
    reply e7 to e5. *)
Definition after_e2e4 : Position :=
  <["e4" := "wP"]> (delete "e2" start_position).

Definition after_e7e5 : Position :=
  <["e5" := "bP"]> (delete "e7" after_e2e4).

Definition drop_e2e4 : Event :=
  Drop "e2" "e4" "wP" after_e2e4 start_position "white".

Definition drop_e7e5 : Event :=
  Drop "e7" "e5" "bP" after_e7e5 after_e2e4 "white".

(** [prev] is the one slot for a snapshot: it is unassigned or holds one
    position object. *)
Definition one_snapshot_slot (w : World) : Prop :=
  prev w = JSUndefined \/ exists p, prev w = JSPositionObj p.

(** The world after the first drag start, and after the drop of the pawn
    on e4 that follows it. *)
Definition world_dragging : World := onDragStart init.

Definition world_dropped : World :=
  set_board1 {| currentPosition := after_e2e4 |}
    (onDrop "e2" "e4" "wP" after_e2e4 start_position "white" world_dragging).

(** The same drop reported with another piece, other positions and the
    other orientation. *)
Definition world_dropped_other : World :=
  set_board1 {| currentPosition := after_e2e4 |}
    (onDrop "e2" "e4" "bQ" start_position after_e7e5 "black" world_dragging).

(** A second drag and drop while the first request is outstanding. *)
Definition world_second_drop : World :=
  set_board1 {| currentPosition := after_e7e5 |}
    (onDrop "e7" "e5" "bP" after_e7e5 after_e2e4 "white"
       (onDragStart world_dropped)).

(** A drop that no drag start has preceded. *)
Definition world_dropped_undragged : World :=
  set_board1 {| currentPosition := after_e2e4 |}
    (onDrop "e2" "e4" "wP" after_e2e4 start_position "white" init).

(** ** Reading the call log and the events *)

(** The paths of the [$.post] calls in a log, oldest first. *)
Fixpoint posted_urls (cs : list Call) : list string :=
  match cs with
  | [] => []
  | CallPost r :: cs' => req_url r :: posted_urls cs'
  | _ :: cs' => posted_urls cs'
  end.

(** The paths the drops among the events ask for, in the order of the
    drops. *)
Fixpoint drop_paths (es : list Event) : list string :=
  match es with
  | [] => []
  | Drop source target _ _ _ _ :: es' =>
      ("move/" +:+ source +:+ "/" +:+ target) :: drop_paths es'
  | _ :: es' => drop_paths es'
  end.

(** The value of the newest [console.log] call in a log. *)
Fixpoint last_logged (cs : list Call) : option JSValue :=
  match cs with
  | [] => None
  | c :: cs' =>
      match last_logged cs' with
      | Some v => Some v
      | None => match c with CallConsoleLog v => Some v | _ => None end
      end
  end.

(** What the console shows of [prev]: nothing while it is unassigned. *)
Definition shown_of_prev (v : JSValue) : option JSValue :=
  match v with JSUndefined => None | _ => Some v end.

(** A call as the script makes them: a request is a POST without payload
    whose path spells the source and target its closure captured, and a set
    of the board is not animated. *)
Definition call_disciplined (c : Call) : bool :=
  match c with
  | CallPost r =>
      match req_method r, req_data r with
      | POST, None =>
          String.eqb (req_url r)
            ("move/" +:+ env_source (req_success r) +:+ "/"
               +:+ env_target (req_success r))
      | _, _ => false
      end
  | CallPositionSet _ useAnimation => negb useAnimation
  | _ => true
  end.

Definition is_position (v : JSValue) : bool :=
  match v with JSPositionObj _ => true | _ => false end.

(** A call that does not hand the board anything but a position object. *)
Definition rollback_arg_ok (c : Call) : bool :=
  match c with
  | CallPositionSet v _ => is_position v
  | _ => true
  end.

(** A response whose body fails the test of the continuation. *)
Definition is_rejection (e : Event) : bool :=
  match e with
  | Response _ data _ => loose_neq_valid data
  | _ => false
  end.

Definition all_responses (es : list Event) : bool := forallb is_Response es.

Definition no_drop (es : list Event) : bool :=
  forallb (fun e => negb (is_Drop e)) es.

(** A square name without the separator of the path. *)
Fixpoint no_slash (s : string) : bool :=
  match s with
  | EmptyString => true
  | String a s' => negb (Ascii.eqb a "/"%char) && no_slash s'
  end.

(** The calls one event adds to the log in world [w]. *)
Definition calls_of_event (w : World) (e : Event) : list Call :=
  match e with
  | DragStart =>
      [CallPositionGet;
       CallConsoleLog (JSPositionObj (currentPosition (board1 w)))]
  | Drop source target piece newPos oldPos orientation =>
      [CallPost
         {| req_method := POST;
            req_url := "move/" +:+ source +:+ "/" +:+ target;
            req_data := None;
            req_success :=
              {| env_source := source; env_target := target;
                 env_piece := piece; env_newPos := newPos;
                 env_oldPos := oldPos; env_orientation := orientation |} |}]
  | Response _ data _ =>
      if loose_neq_valid data then [CallPositionSet (prev w) false] else []
  end.

Section Script.

(** The widget is not part of the script.  Its [position] method shows the
    position object it is given; what it shows when it is given anything
    else is left open. *)
Variable position_of_other : JSValue -> Position -> Position.

(** [board1.position(v, useAnimation)]. *)
Definition board1_position_set (v : JSValue) (useAnimation : bool)
    (w : World) : World :=
  let shown :=
    match v with
    | JSPositionObj p => p
    | _ => position_of_other v (currentPosition (board1 w))
    end in
  set_board1 {| currentPosition := shown |}
             (log_call (CallPositionSet v useAnimation) w).

(** ** The continuation of a request *)

(** [function(data, status) { if (data != "valid") board1.position(prev,
    false); }], run in the world it is called in: [prev] is the global, read
    when the continuation runs. *)
Definition run_callback (c : Closure) (data status : JSValue)
    (w : World) : World :=
  if loose_neq_valid data then board1_position_set (prev w) false w
  else w.

(** ** The event loop *)

(** One event.  A drag start runs [onDragStart]; a drop runs [onDrop] and
    the widget then shows the position it has announced as [newPos], as it
    does for a drop on a square of the board; a
    response takes the [i]-th outstanding request off the transport and
    runs its continuation.  A response to a request that is not outstanding
    cannot happen. *)
Definition step (w : World) (e : Event) : option World :=
  match e with
  | DragStart => Some (onDragStart w)
  | Drop source target piece newPos oldPos orientation =>
      Some (set_board1 {| currentPosition := newPos |}
              (onDrop source target piece newPos oldPos orientation w))
  | Response i data status =>
      match pending w !! i with
      | Some r =>
          Some (run_callback (req_success r) data status
                  (set_pending (delete i (pending w)) w))
      | None => None
      end
  end.

Fixpoint run (es : list Event) (w : World) : option World :=
  match es with
  | [] => Some w
  | e :: es' =>
      match step w e with
      | Some w' => run es' w'
      | None => None
      end
  end.

(** How the transport ends a request: with a success, for which it hands
    the data and the status to the success function, or with a failure (an
    error status, a body it cannot parse), for which [$.post(url, success)]
    has registered nothing. *)
Inductive Completion : Type :=
  | Succeeded (data status : JSValue)
  | Failed (status : JSValue).

(** The [i]-th outstanding request ends.  On a success this is the
    response event; on a failure the request leaves the transport and no
    function of the script runs. *)
Definition complete (w : World) (i : nat) (c : Completion) : option World :=
  match c with
  | Succeeded data status => step w (Response i data status)
  | Failed status =>
      match pending w !! i with
      | Some _ => Some (set_pending (delete i (pending w)) w)
      | None => None
      end
  end.

(** ** Frame lemmas *)

Lemma loose_neq_valid_string (body : string) :
  body <> "valid" -> loose_neq_valid (JSString body) = true.
Proof.
  intros Hne. unfold loose_neq_valid; simpl.
  apply negb_true_iff, String.eqb_neq, Hne.
Qed.

(** The values that pass for "valid" under the loose test: the string
    itself, and an object whose conversion to a primitive is that string. *)
Lemma loose_eq_valid_cases (v : JSValue) :
  loose_eq_valid v = true <-> v = JSString "valid" \/ v = JSObject "valid".
Proof.
  split.
  - destruct v as [| | b | n | s | p | s]; simpl; try discriminate;
      intros H; apply String.eqb_eq in H; subst; auto.
  - by intros [-> | ->].
Qed.


Lemma prev_run_callback c data status (w : World) :
  prev (run_callback c data status w) = prev w.
Proof. unfold run_callback. by destruct (loose_neq_valid data). Qed.

(** Only a drag start assigns [prev]. *)
Lemma step_prev (e : Event) (w w' : World) :
  is_DragStart e = false -> step w e = Some w' -> prev w' = prev w.
Proof.
  destruct e as [| s t p n o r | i data status]; simpl; intros Hd Hs.
  - discriminate.
  - by inversion Hs.
  - destruct (pending w !! i) as [rq|]; [|discriminate].
    inversion Hs. by rewrite prev_run_callback.
Qed.

Lemma run_prev (es : list Event) :
  forall w w', no_drag_start es = true -> run es w = Some w' ->
               prev w' = prev w.
Proof.
  induction es as [|e es IH]; simpl; intros w w' Hn Hr.
  - by inversion Hr.
  - apply andb_true_iff in Hn as [He Hes].
    apply negb_true_iff in He.
    destruct (step w e) as [w1|] eqn:Hs; [|discriminate].
    rewrite (IH _ _ Hes Hr). by apply (step_prev e).
Qed.

(** The board moves only on a drop and on a rollback. *)
Lemma step_board_quiet (e : Event) (w w' : World) :
  board_quiet_event e = true -> step w e = Some w' -> board1 w' = board1 w.
Proof.
  destruct e as [| s t p n o r | i data status]; simpl; intros Hq Hs.
  - by inversion Hs.
  - discriminate.
  - destruct (pending w !! i) as [rq|]; [|discriminate].
    inversion Hs. unfold run_callback, loose_neq_valid. by rewrite Hq.
Qed.

Lemma run_board_quiet (es : list Event) :
  forall w w', board_quiet es = true -> run es w = Some w' ->
               board1 w' = board1 w.
Proof.
  induction es as [|e es IH]; simpl; intros w w' Hq Hr.
  - by inversion Hr.
  - apply andb_true_iff in Hq as [He Hes].
    destruct (step w e) as [w1|] eqn:Hs; [|discriminate].
    rewrite (IH _ _ Hes Hr). by apply (step_board_quiet e).
Qed.

(** A response to an outstanding request is always delivered, and what it
    does is what the continuation does once the request is off the
    transport. *)
Lemma step_response (w : World) (i : nat) (data status : JSValue) :
  i < length (pending w) ->
  exists r, pending w !! i = Some r /\
    step w (Response i data status) =
      Some (run_callback (req_success r) data status
              (set_pending (delete i (pending w)) w)).
Proof.
  intros Hi. destruct (lookup_lt_is_Some_2 _ _ Hi) as [r Hr].
  exists r. split; [done|]. simpl. by rewrite Hr.
Qed.

(** A rejected body: the one collaborator call is the instant set of the
    board to [prev]. *)
Lemma step_rejected (w : World) (i : nat) (body : string) (status : JSValue) :
  i < length (pending w) -> body <> "valid" ->
  step w (Response i (JSString body) status) =
    Some (board1_position_set (prev w) false
            (set_pending (delete i (pending w)) w)).
Proof.
  intros Hi Hne. destruct (step_response w i (JSString body) status Hi)
    as (r & _ & ->).
  unfold run_callback. by rewrite (loose_neq_valid_string _ Hne).
Qed.

(** An accepted body: nothing but the delivery happens. *)
Lemma step_accepted (w : World) (i : nat) (status : JSValue) :
  i < length (pending w) ->
  step w (Response i (JSString "valid") status) =
    Some (set_pending (delete i (pending w)) w).
Proof.
  intros Hi. by destruct (step_response w i (JSString "valid") status Hi)
    as (r & _ & ->).
Qed.

(** ** Rollback and acceptance *)


(** C2, as the script has it.  The verdict is the loose test
    [data != "valid"] of the success function.  For a successful response
    to an outstanding request: when the data passes for "valid" nothing is
    called and the board stays; otherwise, whatever the data, the one call
    [position(prev, false)] is made and the board shows the snapshot in
    [prev].  A string body passes exactly when it is "valid", so the empty
    body, "invalid", "error" and near misses are rejections; an object
    passes when its conversion to a primitive is "valid".  A request that
    ends in a failure runs nothing: the request is gone and there is no
    rollback. *)
Theorem verdict_by_loose_test
    (w : World) (i : nat) (data status : JSValue) (body : string) :
  i < length (pending w) ->
  (exists w',
     step w (Response i data status) = Some w' /\
     calls w' =
       calls w ++
         (if loose_eq_valid data then []
          else [CallPositionSet (prev w) false]) /\
     currentPosition (board1 w') =
       (if loose_eq_valid data then currentPosition (board1 w)
        else match prev w with
             | JSPositionObj p => p
             | v => position_of_other v (currentPosition (board1 w))
             end) /\
     prev w' = prev w /\ pending w' = delete i (pending w)) /\
  loose_eq_valid (JSString body) =
    match spec_verdict body with Accepted => true | Rejected => false end /\
  loose_eq_valid (JSObject body) = loose_eq_valid (JSString body) /\
  Forall (fun b => spec_verdict b = Rejected)
    [""; "invalid"; "error"; "Valid"; "VALID"; "valid "; " valid";
     "vali"; "{valid"; "true"; "ok"] /\
  complete w i (Failed status) =
    Some (set_pending (delete i (pending w)) w).
Proof.
  intros Hi. split; [|split; [|split; [|split]]].
  - destruct (step_response w i data status Hi) as (r & _ & ->).
    eexists. split; [reflexivity|].
    unfold run_callback, loose_neq_valid.
    destruct (loose_eq_valid data); simpl.
    + by rewrite app_nil_r.
    + by destruct (prev w).
  - simpl. unfold spec_verdict.
    destruct (decide (body = "valid")) as [->|Hne]; [done|].
    by apply String.eqb_neq.
  - reflexivity.
  - repeat constructor.
  - simpl. by destruct (lookup_lt_is_Some_2 _ _ Hi) as [r ->].
Qed.

(** C3. Acceptance: after a drop and any further events, a response with
    the body "valid" to an outstanding request is delivered and its
    continuation does nothing: the world is the one before the response with
    the request taken off the transport, so the board, [prev] and the call
    log are as they were.  When the events since the drop have left the board
    alone, the board shows the position the drop left, [newPos]. *)
Theorem accepted_response_no_action
    (source target piece : string) (newPos oldPos : Position)
    (orientation : string) (es : list Event) (w w1 w2 : World)
    (i : nat) (status : JSValue) :
  step w (Drop source target piece newPos oldPos orientation) = Some w1 ->
  run es w1 = Some w2 ->
  i < length (pending w2) ->
  exists w3,
    step w2 (Response i (JSString "valid") status) = Some w3 /\
    w3 = set_pending (delete i (pending w2)) w2 /\
    board1 w3 = board1 w2 /\ prev w3 = prev w2 /\ calls w3 = calls w2 /\
    currentPosition (board1 w1) = newPos /\
    currentPosition (board1 w3) =
      (if board_quiet es then newPos else currentPosition (board1 w2)).
Proof.
  intros Hdrop Hrun Hi. eexists. split; [by apply step_accepted|].
  repeat split; try done.
  - by inversion Hdrop.
  - simpl. destruct (board_quiet es) eqn:Hq; [|done].
    rewrite (run_board_quiet es _ _ Hq Hrun). by inversion Hdrop.
Qed.

(** C4. Snapshot replacement: a drag start stores the position the board
    shows, whatever [prev] held before; and after any events other than a
    drag start, the rollback of a rejected response is called on exactly
    that stored position. *)
Theorem rollback_targets_latest_drag_start
    (es2 : list Event) (w1 w : World)
    (i : nat) (body : string) (status : JSValue) :
  run (DragStart :: es2) w1 = Some w ->
  no_drag_start es2 = true ->
  i < length (pending w) ->
  body <> "valid" ->
  prev (onDragStart w1) = JSPositionObj (currentPosition (board1 w1)) /\
  prev w = prev (onDragStart w1) /\
  exists w',
    step w (Response i (JSString body) status) = Some w' /\
    calls w' =
      calls w ++
        [CallPositionSet (JSPositionObj (currentPosition (board1 w1))) false].
Proof.
  intros Hrun Hno Hi Hne. simpl in Hrun.
  pose proof (run_prev es2 _ _ Hno Hrun) as Hprev.
  split; [done|]. split; [done|].
  eexists. split; [by apply step_rejected|].
  simpl. by rewrite Hprev.
Qed.

(** ** Outstanding requests *)

Lemma pending_onDrop s t p n o r (w : World) :
  pending (onDrop s t p n o r w) =
    pending w ++
      [{| req_method := POST; req_url := "move/" +:+ s +:+ "/" +:+ t;
          req_data := None;
          req_success :=
            {| env_source := s; env_target := t; env_piece := p;
               env_newPos := n; env_oldPos := o; env_orientation := r |} |}].
Proof. reflexivity. Qed.

Lemma pending_run_callback c data status (w : World) :
  pending (run_callback c data status w) = pending w.
Proof. unfold run_callback. by destruct (loose_neq_valid data). Qed.

(** Every drop adds one outstanding request, every response removes one. *)
Lemma step_pending (e : Event) (w w' : World) :
  step w e = Some w' ->
  length (pending w') + (if is_Response e then 1 else 0) =
    length (pending w) + (if is_Drop e then 1 else 0).
Proof.
  destruct e as [| s t p n o r | i data status]; simpl; intros Hs.
  - inversion Hs. simpl. lia.
  - inversion Hs. simpl. rewrite length_app. simpl. lia.
  - destruct (pending w !! i) as [rq|] eqn:Hl; [|discriminate].
    inversion Hs. rewrite pending_run_callback. simpl.
    rewrite length_delete by eauto.
    apply lookup_lt_Some in Hl. lia.
Qed.

Lemma run_pending (es : list Event) :
  forall w w', run es w = Some w' ->
    length (pending w') + count_events is_Response es =
      length (pending w) + count_events is_Drop es.
Proof.
  induction es as [|e es IH]; simpl; intros w w' Hr.
  - inversion Hr. lia.
  - destruct (step w e) as [w1|] eqn:Hs; [|discriminate].
    pose proof (step_pending e _ _ Hs). pose proof (IH _ _ Hr). lia.
Qed.

Lemma step_one_snapshot_slot (e : Event) (w w' : World) :
  step w e = Some w' -> one_snapshot_slot w -> one_snapshot_slot w'.
Proof.
  destruct (is_DragStart e) eqn:Hd.
  - destruct e; try discriminate. simpl. intros Hs _. inversion Hs.
    right. by eexists.
  - intros Hs. unfold one_snapshot_slot. by rewrite (step_prev e _ _ Hd Hs).
Qed.

Lemma run_one_snapshot_slot (es : list Event) :
  forall w w', run es w = Some w' ->
    one_snapshot_slot w -> one_snapshot_slot w'.
Proof.
  induction es as [|e es IH]; simpl; intros w w' Hr Hw.
  - by inversion Hr; subst.
  - destruct (step w e) as [w1|] eqn:Hs; [|discriminate].
    eauto using step_one_snapshot_slot.
Qed.

(** C5, as the script has it: after any events from the loaded script,
    [prev] holds at most one snapshot, a drop puts exactly one request on the
    transport, and the requests outstanding are the drops so far less the
    responses so far. *)
Theorem outstanding_is_drops_less_responses (es : list Event) (w : World) :
  run es init = Some w ->
  one_snapshot_slot w /\
  (forall s t p n o r,
     length (pending (onDrop s t p n o r w)) = S (length (pending w))) /\
  length (pending w) + count_events is_Response es =
    count_events is_Drop es.
Proof.
  intros Hr. split; [|split].
  - apply (run_one_snapshot_slot es init w Hr). by left.
  - intros. rewrite pending_onDrop, length_app. simpl. lia.
  - by rewrite (run_pending es _ _ Hr).
Qed.

(** C6. The rollback call: a rejected response to an outstanding request,
    with a snapshot stored, makes one collaborator call, [position] on the
    board with the stored snapshot and [false] for the animation flag; the
    board shows the snapshot, and no handler has run: [prev] and [callback]
    are not assigned and no request has been issued. *)
Theorem rollback_is_instant_and_silent
    (w : World) (i : nat) (body : string) (status : JSValue)
    (p : Position) :
  i < length (pending w) ->
  body <> "valid" ->
  prev w = JSPositionObj p ->
  exists w',
    step w (Response i (JSString body) status) = Some w' /\
    calls w' = calls w ++ [CallPositionSet (JSPositionObj p) false] /\
    currentPosition (board1 w') = p /\
    prev w' = prev w /\ callback w' = callback w /\
    pending w' = delete i (pending w).
Proof.
  intros Hi Hne Hp. eexists. split; [by apply step_rejected|].
  unfold board1_position_set; simpl. by rewrite Hp.
Qed.

(** ** The request of a drop *)

Lemma step_response_last (w : World) (l : list Request) (r : Request)
    (data status : JSValue) :
  pending w = l ++ [r] ->
  step w (Response (length l) data status) =
    Some (run_callback (req_success r) data status (set_pending l w)).
Proof.
  intros Hp. simpl. rewrite Hp, list_lookup_middle by done.
  by rewrite delete_middle, app_nil_r.
Qed.

Ltac deliver_last w :=
  match goal with
  | |- step ?w1 (Response _ ?data ?status) = _ =>
      by rewrite (step_response_last w1 (pending w) _ data status eq_refl)
  end.

(** C7. The request: a drop makes one transport call, a POST of the path
    "move/" + source + "/" + target with no payload, which becomes the newest
    outstanding request; when its response arrives, the continuation
    created by this drop is run on the body and the status of that
    response. *)
Theorem drop_posts_move_path
    (source target piece : string) (newPos oldPos : Position)
    (orientation : string) (w : World) (data status : JSValue) :
  exists (c : Closure) (w1 : World),
    let rq := {| req_method := POST;
                 req_url := "move/" +:+ source +:+ "/" +:+ target;
                 req_data := None; req_success := c |} in
    step w (Drop source target piece newPos oldPos orientation) = Some w1 /\
    pending w1 = pending w ++ [rq] /\
    calls w1 = calls w ++ [CallPost rq] /\
    step w1 (Response (length (pending w)) data status) =
      Some (run_callback c data status (set_pending (pending w) w1)).
Proof.
  eexists. eexists. cbv zeta. split; [reflexivity|].
  split; [reflexivity|]. split; [reflexivity|].
  deliver_last w.
Qed.

(** C8. A drop on the source square: the request is issued as for any
    drop, with the square twice in the path, and its response is reconciled
    as for any drop: for every other target the continuation leaves the
    same board, the same [prev] and the same outstanding requests. *)
Theorem same_square_drop_full_cycle
    (sq other piece : string) (newPos oldPos : Position)
    (orientation : string) (w : World) (data status : JSValue) :
  exists (c : Closure) (w1 w2 v1 v2 : World),
    step w (Drop sq sq piece newPos oldPos orientation) = Some w1 /\
    pending w1 =
      pending w ++
        [{| req_method := POST; req_url := "move/" +:+ sq +:+ "/" +:+ sq;
            req_data := None; req_success := c |}] /\
    step w1 (Response (length (pending w)) data status) = Some w2 /\
    w2 = (if loose_neq_valid data
          then board1_position_set (prev w) false
                 (set_pending (pending w) w1)
          else set_pending (pending w) w1) /\
    step w (Drop sq other piece newPos oldPos orientation) = Some v1 /\
    step v1 (Response (length (pending w)) data status) = Some v2 /\
    length (pending w1) = length (pending v1) /\
    board1 w2 = board1 v2 /\ prev w2 = prev v2 /\ pending w2 = pending v2.
Proof.
  eexists. eexists. eexists. eexists. eexists.
  split; [reflexivity|]. split; [reflexivity|].
  split; [deliver_last w|].
  split; [reflexivity|]. split; [reflexivity|].
  split; [deliver_last w|].
  unfold run_callback. simpl. rewrite !length_app. simpl.
  by destruct (loose_neq_valid data).
Qed.

(** ** What a drop depends on *)

Lemma erase_board1_position_set v a (w : World) :
  erase (board1_position_set v a w) = board1_position_set v a (erase w).
Proof.
  unfold erase, board1_position_set; simpl. by rewrite fmap_app.
Qed.

Lemma erase_run_callback c c' data status status' (w : World) :
  erase (run_callback c data status w) =
    run_callback c' data status' (erase w).
Proof.
  unfold run_callback. destruct (loose_neq_valid data); [|done].
  by rewrite erase_board1_position_set.
Qed.

Lemma erase_set_pending_delete i (w : World) :
  erase (set_pending (delete i (pending w)) w) =
    set_pending (delete i (pending (erase w))) (erase w).
Proof. unfold erase, set_pending; simpl. by rewrite list_fmap_delete. Qed.

Lemma erase_step_response (w w' : World) i data status status' :
  erase w = erase w' ->
  erase <$> step w (Response i data status) =
    erase <$> step w' (Response i data status').
Proof.
  intros He. simpl.
  assert (is_Some (pending w !! i) <-> is_Some (pending w' !! i)) as Hl.
  { rewrite !lookup_lt_is_Some.
    rewrite <- (length_fmap erase_request (pending w)).
    rewrite <- (length_fmap erase_request (pending w')).
    change (length (pending (erase w)) > i <-> length (pending (erase w')) > i).
    by rewrite He. }
  destruct (pending w !! i) as [r|] eqn:Hr;
    destruct (pending w' !! i) as [r'|] eqn:Hr'; simpl.
  - f_equal.
    rewrite (erase_run_callback _ blank_closure _ _ status').
    rewrite (erase_run_callback (req_success r') blank_closure _ _ status').
    by rewrite !erase_set_pending_delete, He.
  - destruct Hl as [Hl _]. by destruct Hl; eauto.
  - destruct Hl as [_ Hl]. by destruct Hl; eauto.
  - done.
Qed.

(** C9. What a drop depends on: two worlds an observer cannot tell apart
    stay so after two drops with the same source and target, whatever the
    piece, the two positions and the orientation of each; and stay so after
    a response with the same body to the same outstanding request,
    whatever the two statuses and whatever the closures captured. *)
Theorem onDrop_ignores_extra_arguments
    (w w' : World) (source target : string)
    (piece piece' : string) (newPos newPos' oldPos oldPos' : Position)
    (orientation orientation' : string)
    (i : nat) (data status status' : JSValue) (c c' : Closure) :
  erase w = erase w' ->
  erase (onDrop source target piece newPos oldPos orientation w) =
    erase (onDrop source target piece' newPos' oldPos' orientation' w') /\
  erase <$> step w (Response i data status) =
    erase <$> step w' (Response i data status') /\
  run_callback c data status w = run_callback c' data status' w.
Proof.
  intros He. split; [|split].
  - assert (prev w = prev w') as Hp by exact (f_equal prev He).
    assert (board1 w = board1 w') as Hb by exact (f_equal board1 He).
    assert (pending (erase w) = pending (erase w')) as Hq by by rewrite He.
    assert (calls (erase w) = calls (erase w')) as Hc by by rewrite He.
    simpl in Hq, Hc. unfold erase, onDrop, post; simpl.
    rewrite !fmap_app, Hp, Hb, Hq, Hc. reflexivity.
  - by apply erase_step_response.
  - reflexivity.
Qed.

(** C10. Rollback before any drag start: after events from the loaded
    script with no drag start among them, [prev] is still undefined, and a
    rejected response to an outstanding request calls [position] on the
    board with undefined and [false]; what the board then shows is up to
    the widget. *)
Theorem rollback_before_any_drag_start
    (es : list Event) (w : World)
    (i : nat) (body : string) (status : JSValue) :
  run es init = Some w ->
  no_drag_start es = true ->
  i < length (pending w) ->
  body <> "valid" ->
  prev w = JSUndefined /\
  exists w',
    step w (Response i (JSString body) status) = Some w' /\
    calls w' = calls w ++ [CallPositionSet JSUndefined false] /\
    currentPosition (board1 w') =
      position_of_other JSUndefined (currentPosition (board1 w)).
Proof.
  intros Hrun Hno Hi Hne.
  pose proof (run_prev es _ _ Hno Hrun) as Hprev. simpl in Hprev.
  split; [done|]. eexists. split; [by apply step_rejected|].
  unfold board1_position_set; simpl. by rewrite Hprev.
Qed.

(** ** The call log along a run *)

Lemma step_calls (e : Event) (w w' : World) :
  step w e = Some w' -> calls w' = calls w ++ calls_of_event w e.
Proof.
  destruct e as [| s t p n o r | i data status]; simpl; intros Hs.
  - inversion Hs. simpl. by rewrite <- app_assoc.
  - by inversion Hs.
  - destruct (pending w !! i) as [rq|]; [|discriminate].
    inversion Hs. unfold run_callback.
    destruct (loose_neq_valid data); simpl; by rewrite ?app_nil_r.
Qed.

Lemma posted_urls_app (l l' : list Call) :
  posted_urls (l ++ l') = posted_urls l ++ posted_urls l'.
Proof.
  induction l as [|c l IH]; [done|].
  destruct c; simpl; by rewrite IH.
Qed.

Lemma last_logged_app (l l' : list Call) :
  last_logged (l ++ l') =
    match last_logged l' with
    | Some v => Some v
    | None => last_logged l
    end.
Proof.
  induction l as [|c l IH]; simpl.
  - by destruct (last_logged l').
  - rewrite IH. by destruct (last_logged l').
Qed.

(** The requests are issued in the order of the drops, one for each drop,
    on the path of that drop. *)
Theorem posted_paths_follow_drops (es : list Event) :
  forall w0 w, run es w0 = Some w ->
    posted_urls (calls w) = posted_urls (calls w0) ++ drop_paths es.
Proof.
  induction es as [|e es IH]; simpl; intros w0 w Hr.
  - inversion Hr. by rewrite app_nil_r.
  - destruct (step w0 e) as [w1|] eqn:Hs; [|discriminate].
    rewrite (IH _ _ Hr), (step_calls e _ _ Hs), posted_urls_app.
    rewrite <- app_assoc. f_equal.
    destruct e as [| s t p n o r | i data status]; simpl; try done.
    by destruct (loose_neq_valid data).
Qed.

(** The script never animates the board, never sends a payload and never
    uses another method than POST: a log of disciplined calls stays one. *)
Theorem calls_stay_disciplined (es : list Event) :
  forall w0 w, run es w0 = Some w ->
    forallb call_disciplined (calls w0) = true ->
    forallb call_disciplined (calls w) = true.
Proof.
  induction es as [|e es IH]; simpl; intros w0 w Hr H0.
  - by inversion Hr; subst.
  - destruct (step w0 e) as [w1|] eqn:Hs; [|discriminate].
    apply (IH _ _ Hr). rewrite (step_calls e _ _ Hs), forallb_app, H0.
    destruct e as [| s t p n o r | i data status]; simpl; try done.
    + by rewrite String.eqb_refl.
    + by destruct (loose_neq_valid data).
Qed.

(** The newest value on the console is the value of [prev]: the console
    shows the rollback target at all times. *)
Theorem console_shows_prev (es : list Event) :
  forall w0 w, run es w0 = Some w ->
    last_logged (calls w0) = shown_of_prev (prev w0) ->
    last_logged (calls w) = shown_of_prev (prev w).
Proof.
  induction es as [|e es IH]; simpl; intros w0 w Hr H0.
  - by inversion Hr; subst.
  - destruct (step w0 e) as [w1|] eqn:Hs; [|discriminate].
    apply (IH _ _ Hr). rewrite (step_calls e _ _ Hs), last_logged_app.
    destruct (is_DragStart e) eqn:Hd.
    + destruct e; try discriminate. by inversion Hs.
    + rewrite (step_prev e _ _ Hd Hs), <- H0.
      destruct e as [| s t p n o r | i data status]; simpl; try done.
      by destruct (loose_neq_valid data).
Qed.

(** The size of the log: two calls for a drag start, one for a drop, one
    for a rejected response, none for an accepted one. *)
Theorem calls_counted (es : list Event) :
  forall w0 w, run es w0 = Some w ->
    length (calls w) =
      length (calls w0) + 2 * count_events is_DragStart es
        + count_events is_Drop es + count_events is_rejection es.
Proof.
  induction es as [|e es IH]; simpl; intros w0 w Hr.
  - inversion Hr. lia.
  - destruct (step w0 e) as [w1|] eqn:Hs; [|discriminate].
    rewrite (IH _ _ Hr), (step_calls e _ _ Hs), length_app.
    destruct e as [| s t p n o r | i data status]; simpl; try lia.
    destruct (loose_neq_valid data); simpl; lia.
Qed.

(** ** The global [callback] *)

Lemma step_callback (e : Event) (w w' : World) :
  is_Drop e = false -> step w e = Some w' -> callback w' = callback w.
Proof.
  destruct e as [| s t p n o r | i data status]; simpl; intros Hd Hs.
  - by inversion Hs.
  - discriminate.
  - destruct (pending w !! i) as [rq|]; [|discriminate].
    inversion Hs. unfold run_callback. by destruct (loose_neq_valid data).
Qed.

Lemma run_callback_global (es : list Event) :
  forall w w', no_drop es = true -> run es w = Some w' ->
               callback w' = callback w.
Proof.
  induction es as [|e es IH]; simpl; intros w w' Hn Hr.
  - by inversion Hr.
  - apply andb_true_iff in Hn as [He Hes]. apply negb_true_iff in He.
    destruct (step w e) as [w1|] eqn:Hs; [|discriminate].
    rewrite (IH _ _ Hes Hr). by apply (step_callback e).
Qed.

(** After a drop, and until the next one, the global [callback] is the
    closure of that drop, whether its request has been answered or not. *)
Theorem callback_is_latest_drop
    (source target piece : string) (newPos oldPos : Position)
    (orientation : string) (es : list Event) (w0 w1 w : World) :
  step w0 (Drop source target piece newPos oldPos orientation) = Some w1 ->
  run es w1 = Some w ->
  no_drop es = true ->
  callback w =
    Some {| env_source := source; env_target := target;
            env_piece := piece; env_newPos := newPos;
            env_oldPos := oldPos; env_orientation := orientation |}.
Proof.
  intros Hd Hr Hn. rewrite (run_callback_global es _ _ Hn Hr).
  by inversion Hd.
Qed.

(** ** Rollbacks along a run *)


Lemma run_keeps_position (es : list Event) :
  forall w w', run es w = Some w' ->
    is_position (prev w) = true ->
    is_position (prev w') = true /\
    exists l, calls w' = calls w ++ l /\ forallb rollback_arg_ok l = true.
Proof.
  induction es as [|e es IH]; simpl; intros w w' Hr Hp.
  - inversion Hr; subst. split; [done|]. exists []. by rewrite app_nil_r.
  - destruct (step w e) as [w1|] eqn:Hs; [|discriminate].
    assert (is_position (prev w1) = true) as Hp1.
    { destruct (is_DragStart e) eqn:Hd.
      - destruct e; try discriminate. by inversion Hs.
      - by rewrite (step_prev e _ _ Hd Hs). }
    destruct (IH _ _ Hr Hp1) as (Hp' & l & Hl & Hok). split; [done|].
    exists (calls_of_event w e ++ l). split.
    + by rewrite Hl, (step_calls e _ _ Hs), <- app_assoc.
    + rewrite forallb_app, Hok, andb_true_r.
      destruct e as [| s t p n o r | i data status]; simpl; try done.
      destruct (loose_neq_valid data); simpl; [|done]. by rewrite Hp.
Qed.

(** Once a drag has started, [prev] holds a position object for good, and
    every rollback from then on hands the board a position object, never
    undefined. *)
Theorem rollback_defined_after_drag_start (es : list Event) (w0 w : World) :
  run (DragStart :: es) w0 = Some w ->
  is_position (prev w) = true /\
  exists l, calls w = calls w0 ++ l /\ forallb rollback_arg_ok l = true.
Proof.
  simpl. intros Hr.
  destruct (run_keeps_position es _ _ Hr eq_refl) as (Hp & l & Hl & Hok).
  split; [done|].
  exists ([CallPositionGet;
           CallConsoleLog (JSPositionObj (currentPosition (board1 w0)))] ++ l).
  split; [|done]. rewrite Hl. simpl. by rewrite <- !app_assoc.
Qed.

(** Responses alone, in any number and any order, with a snapshot stored:
    the board ends on the snapshot when one of them is a rejection, and is
    left as it is when all are acceptances; [prev] is not touched. *)
Theorem one_rejection_rolls_back (es : list Event) :
  forall (w w' : World) (p : Position),
    all_responses es = true ->
    run es w = Some w' ->
    prev w = JSPositionObj p ->
    prev w' = JSPositionObj p /\
    length (pending w') + length es = length (pending w) /\
    currentPosition (board1 w') =
      (if board_quiet es then currentPosition (board1 w) else p).
Proof.
  induction es as [|e es IH]; simpl; intros w w' p Ha Hr Hp.
  - inversion Hr; subst. split; [done|]. split; [lia|done].
  - apply andb_true_iff in Ha as [He Hes].
    destruct e as [| | i data status]; try discriminate. simpl in Hr.
    destruct (pending w !! i) as [rq|] eqn:Hl; [|discriminate].
    pose proof (lookup_lt_Some _ _ _ Hl) as Hlt.
    unfold run_callback, loose_neq_valid in Hr. simpl.
    destruct (loose_eq_valid data); simpl in Hr.
    + destruct (IH _ _ p Hes Hr Hp) as (H1 & H2 & H3).
      split; [done|]. split; [|done].
      simpl in H2. rewrite length_delete in H2 by eauto. lia.
    + destruct (IH _ _ p Hes Hr) as (H1 & H2 & H3).
      { simpl. by rewrite Hp. }
      split; [done|]. split.
      * simpl in H2. rewrite length_delete in H2 by eauto. lia.
      * rewrite H3. simpl. rewrite Hp. by destruct (board_quiet es).
Qed.

(** ** The path of a request *)

Lemma slash_split (s : string) :
  forall s' t t', no_slash s = true -> no_slash s' = true ->
    s +:+ "/" +:+ t = s' +:+ "/" +:+ t' -> s = s' /\ t = t'.
Proof.
  induction s as [|a s IH]; intros [|a' s'] t t'; simpl; intros Hs Hs' He.
  - by inversion He.
  - inversion He; subst. by rewrite Ascii.eqb_refl in Hs'.
  - inversion He; subst. by rewrite Ascii.eqb_refl in Hs.
  - inversion He; subst.
    apply andb_true_iff in Hs as [_ Hs]. apply andb_true_iff in Hs' as [_ Hs'].
    destruct (IH _ _ _ Hs Hs' H1) as [-> ->]. done.
Qed.

(** The path tells the move: two drops whose source squares hold no slash
    post the same path only when they have the same source and the same
    target. *)
Theorem path_determines_move
    (source target piece : string) (newPos oldPos : Position)
    (orientation : string)
    (source' target' piece' : string) (newPos' oldPos' : Position)
    (orientation' : string) (w : World) :
  no_slash source = true ->
  no_slash source' = true ->
  posted_urls
    (calls (onDrop source target piece newPos oldPos orientation w)) =
  posted_urls
    (calls (onDrop source' target' piece' newPos' oldPos' orientation' w)) ->
  source = source' /\ target = target'.
Proof.
  intros Hs Hs'. unfold onDrop, post; simpl.
  rewrite !posted_urls_app. simpl. intros He.
  apply app_inv_head in He. inversion He as [Hp].
  by apply slash_split.
Qed.

End Script.

(** ** The theorems on the sample game *)


(** C2 as the specification words it fails.  An object whose conversion
    to a primitive is "valid", such as the array holding that one string,
    is not the string "valid" and is accepted all the same; and a request
    that ends in a failure is not rolled back. *)
Lemma fail_closed_refuted :
  ~ (forall (data status : JSValue) (w w' : World) (i : nat),
       data <> JSString "valid" ->
       step keep_position w (Response i data status) = Some w' ->
       calls w' = calls w ++ [CallPositionSet (prev w) false]) /\
  ~ (forall (status : JSValue) (w w' : World) (i : nat),
       complete keep_position w i (Failed status) = Some w' ->
       calls w' = calls w ++ [CallPositionSet (prev w) false]).
Proof.
  split; intros Hclaim.
  - pose proof (Hclaim (JSObject "valid") (JSString "success")
                  world_dropped (set_pending [] world_dropped) 0
                  ltac:(discriminate) eq_refl) as Hc.
    apply (f_equal length) in Hc. simpl in Hc. lia.
  - pose proof (Hclaim (JSString "error") world_dropped
                  (set_pending [] world_dropped) 0 eq_refl) as Hc.
    apply (f_equal length) in Hc. simpl in Hc. lia.
Qed.

(** The pawn move is answered "invalid": one call, [position] with the
    start position and [false], and the board shows the start position. *)
Lemma verdict_by_loose_test_witness :
  (exists w',
     step keep_position world_dropped
       (Response 0 (JSString "invalid") (JSString "success")) = Some w' /\
     calls w' =
       calls world_dropped ++
         [CallPositionSet (JSPositionObj start_position) false] /\
     currentPosition (board1 w') = start_position /\
     prev w' = prev world_dropped /\ pending w' = []) /\
  loose_eq_valid (JSString "invalid") = false /\
  loose_eq_valid (JSObject "valid") = true /\
  complete keep_position world_dropped 0 (Failed (JSString "error")) =
    Some (set_pending [] world_dropped).
Proof.
  destruct (verdict_by_loose_test keep_position world_dropped 0
              (JSString "invalid") (JSString "success") "invalid")
    as (H1 & H2 & _ & _ & H5).
  - simpl; lia.
  - split; [exact H1|]. split; [exact H2|]. split; [reflexivity|exact H5].
Defined.

(** The pawn is dropped on e4, the next drag starts, the server answers
    "valid": the pawn stays on e4. *)
Lemma accepted_response_no_action_witness :
  step keep_position world_dragging drop_e2e4 = Some world_dropped /\
  run keep_position [DragStart] world_dropped =
    Some (onDragStart world_dropped) /\
  exists w3,
    step keep_position (onDragStart world_dropped)
      (Response 0 (JSString "valid") (JSString "success")) = Some w3 /\
    w3 = set_pending [] (onDragStart world_dropped) /\
    board1 w3 = board1 (onDragStart world_dropped) /\
    prev w3 = prev (onDragStart world_dropped) /\
    calls w3 = calls (onDragStart world_dropped) /\
    currentPosition (board1 world_dropped) = after_e2e4 /\
    currentPosition (board1 w3) = after_e2e4.
Proof.
  split; [reflexivity|]. split; [reflexivity|].
  apply (accepted_response_no_action keep_position
           "e2" "e4" "wP" after_e2e4 start_position "white" [DragStart]
           world_dragging world_dropped (onDragStart world_dropped) 0
           (JSString "success")).
  - reflexivity.
  - reflexivity.
  - simpl; lia.
Defined.

(** Two drags and drops before the first response: the rejection of the
    first move is rolled back to the snapshot of the second drag start, the
    position with the pawn on e4, not to the start position. *)
Lemma rollback_targets_latest_drag_start_witness :
  run keep_position [DragStart; drop_e7e5] world_dropped =
    Some world_second_drop /\
  prev world_dropped = JSPositionObj start_position /\
  prev world_second_drop = JSPositionObj after_e2e4 /\
  exists w',
    step keep_position world_second_drop
      (Response 0 (JSString "invalid") (JSString "success")) = Some w' /\
    calls w' =
      calls world_second_drop ++
        [CallPositionSet (JSPositionObj after_e2e4) false].
Proof.
  split; [reflexivity|]. split; [reflexivity|].
  destruct (rollback_targets_latest_drag_start keep_position [drop_e7e5]
              world_dropped world_second_drop 0 "invalid"
              (JSString "success")) as (_ & H2 & H3).
  - reflexivity.
  - reflexivity.
  - simpl; lia.
  - discriminate.
  - split; [exact H2 | exact H3].
Defined.

(** C5 as the specification words it fails: the script never refuses a
    drop, and after two drags and drops with no response in between two
    requests are outstanding. *)
Lemma outstanding_requests_exceed_one :
  ~ (forall (es : list Event) (w : World),
       run keep_position es init = Some w ->
       one_snapshot_slot w /\ length (pending w) <= 1).
Proof.
  intros Hclaim.
  destruct (Hclaim [DragStart; drop_e2e4; DragStart; drop_e7e5]
              world_second_drop eq_refl) as [_ Hle].
  simpl in Hle. lia.
Qed.

Lemma outstanding_is_drops_less_responses_witness :
  run keep_position [DragStart; drop_e2e4; DragStart; drop_e7e5] init =
    Some world_second_drop /\
  one_snapshot_slot world_second_drop /\
  length (pending world_second_drop) = 2.
Proof.
  split; [reflexivity|].
  destruct (outstanding_is_drops_less_responses keep_position
              [DragStart; drop_e2e4; DragStart; drop_e7e5]
              world_second_drop eq_refl) as (H1 & _ & H3).
  split; [exact H1|].
  change (length (pending world_second_drop) + 0 = 2) in H3. lia.
Defined.

Lemma rollback_is_instant_and_silent_witness :
  exists w',
    step keep_position world_dropped
      (Response 0 (JSString "invalid") (JSString "success")) = Some w' /\
    calls w' =
      calls world_dropped ++
        [CallPositionSet (JSPositionObj start_position) false] /\
    currentPosition (board1 w') = start_position /\
    prev w' = prev world_dropped /\
    callback w' = callback world_dropped /\
    pending w' = [].
Proof.
  apply (rollback_is_instant_and_silent keep_position world_dropped 0
           "invalid" (JSString "success") start_position).
  - simpl; lia.
  - discriminate.
  - reflexivity.
Defined.

Lemma onDrop_ignores_extra_arguments_witness :
  erase world_dropped = erase world_dropped_other /\
  erase (onDrop "e7" "e5" "bP" after_e7e5 after_e2e4 "white" world_dropped) =
    erase (onDrop "e7" "e5" "wK" start_position start_position "black"
             world_dropped_other) /\
  erase <$> step keep_position world_dropped
              (Response 0 (JSString "invalid") (JSString "success")) =
    erase <$> step keep_position world_dropped_other
                (Response 0 (JSString "invalid") (JSNumber 200)).
Proof.
  split; [reflexivity|].
  destruct (onDrop_ignores_extra_arguments keep_position
              world_dropped world_dropped_other "e7" "e5"
              "bP" "wK" after_e7e5 start_position after_e2e4 start_position
              "white" "black" 0 (JSString "invalid")
              (JSString "success") (JSNumber 200)
              blank_closure blank_closure eq_refl) as (H1 & H2 & _).
  split; [exact H1 | exact H2].
Defined.

(** A drop that no drag start has preceded is rejected: the board is asked
    to show undefined. *)
Lemma rollback_before_any_drag_start_witness :
  run keep_position [drop_e2e4] init = Some world_dropped_undragged /\
  prev world_dropped_undragged = JSUndefined /\
  exists w',
    step keep_position world_dropped_undragged
      (Response 0 (JSString "invalid") (JSString "success")) = Some w' /\
    calls w' =
      calls world_dropped_undragged ++ [CallPositionSet JSUndefined false] /\
    currentPosition (board1 w') = after_e2e4.
Proof.
  split; [reflexivity|].
  apply (rollback_before_any_drag_start keep_position [drop_e2e4]
           world_dropped_undragged 0 "invalid" (JSString "success")).
  - reflexivity.
  - reflexivity.
  - simpl; lia.
  - discriminate.
Defined.

(** ** The further theorems on the sample game *)

Lemma posted_paths_follow_drops_witness :
  run keep_position [DragStart; drop_e2e4; DragStart; drop_e7e5] init =
    Some world_second_drop /\
  posted_urls (calls world_second_drop) = ["move/e2/e4"; "move/e7/e5"].
Proof.
  split; [reflexivity|].
  apply (posted_paths_follow_drops keep_position
           [DragStart; drop_e2e4; DragStart; drop_e7e5] init
           world_second_drop).
  reflexivity.
Defined.

Lemma calls_stay_disciplined_witness :
  run keep_position
    [DragStart; drop_e2e4;
     Response 0 (JSString "invalid") (JSString "success")] init =
    Some (board1_position_set keep_position (prev world_dropped) false
            (set_pending [] world_dropped)) /\
  forallb call_disciplined (calls init) = true /\
  forallb call_disciplined
    (calls (board1_position_set keep_position (prev world_dropped) false
              (set_pending [] world_dropped))) = true.
Proof.
  split; [reflexivity|]. split; [reflexivity|].
  apply (calls_stay_disciplined keep_position
           [DragStart; drop_e2e4;
            Response 0 (JSString "invalid") (JSString "success")] init).
  - reflexivity.
  - reflexivity.
Defined.

Lemma console_shows_prev_witness :
  run keep_position [DragStart; drop_e2e4; DragStart; drop_e7e5] init =
    Some world_second_drop /\
  last_logged (calls init) = shown_of_prev (prev init) /\
  last_logged (calls world_second_drop) = Some (JSPositionObj after_e2e4).
Proof.
  split; [reflexivity|]. split; [reflexivity|].
  apply (console_shows_prev keep_position
           [DragStart; drop_e2e4; DragStart; drop_e7e5] init
           world_second_drop).
  - reflexivity.
  - reflexivity.
Defined.

Lemma calls_counted_witness :
  run keep_position
    [DragStart; drop_e2e4;
     Response 0 (JSString "invalid") (JSString "success")] init =
    Some (board1_position_set keep_position (prev world_dropped) false
            (set_pending [] world_dropped)) /\
  length (calls (board1_position_set keep_position (prev world_dropped) false
                   (set_pending [] world_dropped))) = 4.
Proof.
  split; [reflexivity|].
  apply (calls_counted keep_position
           [DragStart; drop_e2e4;
            Response 0 (JSString "invalid") (JSString "success")] init).
  reflexivity.
Defined.

Lemma callback_is_latest_drop_witness :
  step keep_position world_dragging drop_e2e4 = Some world_dropped /\
  run keep_position
    [DragStart; Response 0 (JSString "valid") (JSString "success")]
    world_dropped = Some (set_pending [] (onDragStart world_dropped)) /\
  callback (set_pending [] (onDragStart world_dropped)) =
    Some {| env_source := "e2"; env_target := "e4"; env_piece := "wP";
            env_newPos := after_e2e4; env_oldPos := start_position;
            env_orientation := "white" |}.
Proof.
  split; [reflexivity|]. split; [reflexivity|].
  apply (callback_is_latest_drop keep_position
           "e2" "e4" "wP" after_e2e4 start_position "white"
           [DragStart; Response 0 (JSString "valid") (JSString "success")]
           world_dragging world_dropped).
  - reflexivity.
  - reflexivity.
  - reflexivity.
Defined.


Lemma rollback_defined_after_drag_start_witness :
  run keep_position
    [DragStart; drop_e2e4;
     Response 0 (JSString "invalid") (JSString "success")] init =
    Some (board1_position_set keep_position (prev world_dropped) false
            (set_pending [] world_dropped)) /\
  is_position
    (prev (board1_position_set keep_position (prev world_dropped) false
             (set_pending [] world_dropped))) = true /\
  exists l,
    calls (board1_position_set keep_position (prev world_dropped) false
             (set_pending [] world_dropped)) = calls init ++ l /\
    forallb rollback_arg_ok l = true.
Proof.
  split; [reflexivity|].
  apply (rollback_defined_after_drag_start keep_position
           [drop_e2e4; Response 0 (JSString "invalid") (JSString "success")]
           init).
  reflexivity.
Defined.

(** Both requests of the two drops are answered, the newer one with
    "valid" and then the older one with "invalid": the board is on the
    snapshot of the second drag start. *)
Lemma one_rejection_rolls_back_witness :
  exists w',
    run keep_position
      [Response 1 (JSString "valid") (JSString "success");
       Response 0 (JSString "invalid") (JSString "success")]
      world_second_drop = Some w' /\
    prev w' = JSPositionObj after_e2e4 /\
    length (pending w') + 2 = 2 /\
    currentPosition (board1 w') = after_e2e4.
Proof.
  eexists. split; [reflexivity|].
  apply (one_rejection_rolls_back keep_position
           [Response 1 (JSString "valid") (JSString "success");
            Response 0 (JSString "invalid") (JSString "success")]
           world_second_drop _ after_e2e4).
  - reflexivity.
  - reflexivity.
  - reflexivity.
Defined.

Lemma path_determines_move_witness :
  no_slash "e2" = true /\
  posted_urls
    (calls (onDrop "e2" "e4" "wP" after_e2e4 start_position "white" init)) =
  posted_urls
    (calls (onDrop "e2" "e4" "bQ" start_position after_e7e5 "black" init)) /\
  "e2" = "e2" /\ "e4" = "e4".
Proof.
  split; [reflexivity|]. split; [reflexivity|].
  apply (path_determines_move
           "e2" "e4" "wP" after_e2e4 start_position "white"
           "e2" "e4" "bQ" start_position after_e7e5 "black" init).
  - reflexivity.
  - reflexivity.
  - reflexivity.
Defined.
